(** * wangle::SSLContextConfig

    A shallow embedding of [wangle/ssl/SSLContextConfig.h]: the
    configuration record of one TLS context, its default member
    initialisers, the three lazily initialised process-wide default
    strings, and the builder member functions that populate the
    certificate, delegated-credential and next-protocol lists.

    Conventions of the embedding:
    - [std::string] is [string]; [std::vector] and [std::list] are [list],
      with [clear] giving the empty list and [emplace_back] appending at
      the end; [std::set<std::string>] is [gset string];
      [folly::Optional] is [option]; [int] weights are [Z].
    - a [void] member function that mutates [*this] is a function from the
      configuration before the call to the configuration after it.
    - a [const&] parameter of a function that first clears a list is not a
      value but says what it is bound to; where the function reads an
      object it has already destroyed it has no defined result, [None].
    - a function-local [static] is a cell of the process state that is
      filled the first time control passes through its declaration. *)

From Stdlib Require Import ZArith.
From stdpp Require Import base strings gmap list.

Local Open Scope string_scope.
Local Open Scope list_scope.

(** ** The parts of folly the header relies on *)

Module folly.

(** Modelled from the spec: [folly::join(delimiter, container)], defined in
    folly and not in this header; the spec describes its result as the
    delimiter-separated string "built by joining an ordered list of
    algorithm/cipher names". *)
Fixpoint join (delim : string) (pieces : list string) : string :=
  match pieces with
  | [] => ""
  | [piece] => piece
  | piece :: rest => piece +:+ delim +:+ join delim rest
  end.

(** Modelled from the spec: [folly::SSLContext::NextProtocolsItem], declared
    in folly/io/async/SSLContext.h; "each entry pairs a weight with an
    ordered sequence of protocol name strings".  The header builds it with
    [emplace_back(1, inNextProtocols)], weight first. *)
Record NextProtocolsItem := mkNextProtocolsItem {
  weight : Z;
  protocols : list string
}.

(** Modelled from the spec: [folly::SSLContext::VerifyClientCertificate],
    declared in folly/io/async/SSLContext.h; "variants at least:
    always-verify, optional, none". *)
Inductive VerifyClientCertificate :=
| ALWAYS
| IF_PRESENTED
| DO_NOT_REQUEST.

End folly.

(** ** The data model *)

(** [struct CertificateInfo]: four public data members. *)
Record CertificateInfo := mkCertificateInfo {
  certPath : string;
  keyPath : string;
  passwordPath : string;
  isBuffer : bool
}.

(** [CertificateInfo(crtPath, kyPath, passwdPath)]: [isBuffer] keeps its
    default member initialiser [false]. *)
Definition CertificateInfo_path (crtPath kyPath passwdPath : string)
  : CertificateInfo :=
  {| certPath := crtPath; keyPath := kyPath; passwordPath := passwdPath;
     isBuffer := false |}.

(** [CertificateInfo(crtBuf, kyBuf)]: [passwordPath] is default-constructed,
    [isBuffer] is set. *)
Definition CertificateInfo_buf (crtBuf kyBuf : string) : CertificateInfo :=
  {| certPath := crtBuf; keyPath := kyBuf; passwordPath := "";
     isBuffer := true |}.

(** An entry is ambiguous when it is buffer-sourced and still names a
    password file. *)
Definition ambiguous (info : CertificateInfo) : bool :=
  isBuffer info && negb (String.eqb (passwordPath info) "").

Inductive IssuerType := PUBLIC_CA | PROD_CA | PUBLIC_TO_PRODCA.

Record DelegatedCredInfo := mkDelegatedCredInfo {
  combinedCertPath : string
}.

Record KeyOffloadParams := mkKeyOffloadParams {
  offloadType : gset string;
  serviceId : string;
  enableCertOffload : bool
}.

(** The default member initialisers of [KeyOffloadParams]. *)
Definition KeyOffloadParams_default : KeyOffloadParams :=
  {| offloadType := ∅; serviceId := "default"; enableCertOffload := false |}.

(** [std::vector::clear] and [emplace_back]. *)
Definition clear {A : Type} (v : list A) : list A := [].
Definition emplace_back {A : Type} (x : A) (v : list A) : list A := v ++ [x].

(** ** Reference parameters *)

(** What a [const&] parameter of type [A] is bound to, seen from a list of
    [E] the called function works on: an object that is no part of that
    list, given by its value, or a member of the list's [i]-th element,
    such as [certificates[i].certPath]. *)
Inductive Arg (E A : Type) : Type :=
| detached (v : A)
| element (i : nat) (member : E -> A).

Arguments detached {E A} v.
Arguments element {E A} i member.

(** Reading through the parameter while the list holds [l].  An element
    the list no longer holds has been destroyed, and reading it has no
    defined result. *)
Definition deref {E A : Type} (l : list E) (a : Arg E A) : option A :=
  match a with
  | detached v => Some v
  | element i member => member <$> l !! i
  end.

(** ** Function-local statics *)

(** One function-local static of type [const std::string&]: [cell] is empty
    until the declaration is first reached; [initialisations] is a ghost
    counter of how often the initialiser expression has been evaluated. *)
Record StaticLocal := mkStaticLocal {
  cell : option string;
  initialisations : nat
}.

Definition StaticLocal_fresh : StaticLocal :=
  {| cell := None; initialisations := 0 |}.

(** Passing through the declaration [static const std::string& x = init;]
    and reading [x]. *)
Definition static_local (init : string) (sl : StaticLocal)
  : string * StaticLocal :=
  match cell sl with
  | Some s => (s, sl)
  | None => (init, {| cell := Some init;
                      initialisations := S (initialisations sl) |})
  end.

(** The three statics of the header. *)
Record ProcessStatics := mkProcessStatics {
  defaultCiphers : StaticLocal;
  defaultCiphersuites : StaticLocal;
  defaultSigAlgs : StaticLocal
}.

(** The statics at process start. *)
Definition process_start : ProcessStatics :=
  {| defaultCiphers := StaticLocal_fresh;
     defaultCiphersuites := StaticLocal_fresh;
     defaultSigAlgs := StaticLocal_fresh |}.

Section Config.

(** [folly::SSLContext::SSLVersion] is declared in folly; the header only
    names its enumerator [TLSv1_2]. *)
Context {SSLVersion : Type} (TLSv1_2 : SSLVersion).

(** [folly::ssl::SSLServerOptions::ciphers()], [ciphersuites()] and
    [sigalgs()]: the canonical lists, defined in folly. *)
Context (ciphers ciphersuites sigalgs : list string).

Record SSLContextConfig := mkSSLContextConfig {
  certificates : list CertificateInfo;
  delegatedCredentials : list DelegatedCredInfo;
  sslVersion : SSLVersion;
  sessionCacheEnabled : bool;
  sessionTicketEnabled : bool;
  sslCiphers : string;
  sslCiphersuites : string;
  sigAlgs : string;
  eccCurveName : string;
  nextProtocols : list folly.NextProtocolsItem;
  isLocalPrivateKey : bool;
  isDefault : bool;
  clientCAFile : string;
  clientCAFiles : list string;
  clientVerification : folly.VerifyClientCertificate;
  keyOffloadParams : KeyOffloadParams;
  offloadDisabled : bool;
  domains : list string;
  shouldLoadFromProdCA : bool;
  issuerType : IssuerType;
  sessionContext : option string;
  alpnAllowMismatch : bool
}.

(** *** The static getters *)

Definition getDefaultCiphers (st : ProcessStatics)
  : string * ProcessStatics :=
  let (s, sl) := static_local (folly.join ":" ciphers) (defaultCiphers st) in
  (s, {| defaultCiphers := sl;
         defaultCiphersuites := defaultCiphersuites st;
         defaultSigAlgs := defaultSigAlgs st |}).

Definition getDefaultCiphersuites (st : ProcessStatics)
  : string * ProcessStatics :=
  let (s, sl) :=
    static_local (folly.join ":" ciphersuites) (defaultCiphersuites st) in
  (s, {| defaultCiphers := defaultCiphers st;
         defaultCiphersuites := sl;
         defaultSigAlgs := defaultSigAlgs st |}).

Definition getDefaultSigAlgs (st : ProcessStatics)
  : string * ProcessStatics :=
  let (s, sl) := static_local (folly.join ":" sigalgs) (defaultSigAlgs st) in
  (s, {| defaultCiphers := defaultCiphers st;
         defaultCiphersuites := defaultCiphersuites st;
         defaultSigAlgs := sl |}).

(** *** [SSLContextConfig() = default]

    The default member initialisers run in declaration order; three of
    them call the static getters. *)
Definition construct (st : ProcessStatics)
  : SSLContextConfig * ProcessStatics :=
  let (ciphers_, st1) := getDefaultCiphers st in
  let (ciphersuites_, st2) := getDefaultCiphersuites st1 in
  let (sigalgs_, st3) := getDefaultSigAlgs st2 in
  ({| certificates := [];
      delegatedCredentials := [];
      sslVersion := TLSv1_2;
      sessionCacheEnabled := true;
      sessionTicketEnabled := true;
      sslCiphers := ciphers_;
      sslCiphersuites := ciphersuites_;
      sigAlgs := sigalgs_;
      eccCurveName := "prime256v1";
      nextProtocols := [];
      isLocalPrivateKey := true;
      isDefault := false;
      clientCAFile := "";
      clientCAFiles := [];
      clientVerification := folly.ALWAYS;
      keyOffloadParams := KeyOffloadParams_default;
      offloadDisabled := true;
      domains := [];
      shouldLoadFromProdCA := false;
      issuerType := PUBLIC_CA;
      sessionContext := None;
      alpnAllowMismatch := true |}, st3).

(** *** Updating one list member in place *)

Definition update_certificates
    (f : list CertificateInfo -> list CertificateInfo)
    (c : SSLContextConfig) : SSLContextConfig :=
  {| certificates := f (certificates c);
     delegatedCredentials := delegatedCredentials c;
     sslVersion := sslVersion c;
     sessionCacheEnabled := sessionCacheEnabled c;
     sessionTicketEnabled := sessionTicketEnabled c;
     sslCiphers := sslCiphers c;
     sslCiphersuites := sslCiphersuites c;
     sigAlgs := sigAlgs c;
     eccCurveName := eccCurveName c;
     nextProtocols := nextProtocols c;
     isLocalPrivateKey := isLocalPrivateKey c;
     isDefault := isDefault c;
     clientCAFile := clientCAFile c;
     clientCAFiles := clientCAFiles c;
     clientVerification := clientVerification c;
     keyOffloadParams := keyOffloadParams c;
     offloadDisabled := offloadDisabled c;
     domains := domains c;
     shouldLoadFromProdCA := shouldLoadFromProdCA c;
     issuerType := issuerType c;
     sessionContext := sessionContext c;
     alpnAllowMismatch := alpnAllowMismatch c |}.

Definition update_delegatedCredentials
    (f : list DelegatedCredInfo -> list DelegatedCredInfo)
    (c : SSLContextConfig) : SSLContextConfig :=
  {| certificates := certificates c;
     delegatedCredentials := f (delegatedCredentials c);
     sslVersion := sslVersion c;
     sessionCacheEnabled := sessionCacheEnabled c;
     sessionTicketEnabled := sessionTicketEnabled c;
     sslCiphers := sslCiphers c;
     sslCiphersuites := sslCiphersuites c;
     sigAlgs := sigAlgs c;
     eccCurveName := eccCurveName c;
     nextProtocols := nextProtocols c;
     isLocalPrivateKey := isLocalPrivateKey c;
     isDefault := isDefault c;
     clientCAFile := clientCAFile c;
     clientCAFiles := clientCAFiles c;
     clientVerification := clientVerification c;
     keyOffloadParams := keyOffloadParams c;
     offloadDisabled := offloadDisabled c;
     domains := domains c;
     shouldLoadFromProdCA := shouldLoadFromProdCA c;
     issuerType := issuerType c;
     sessionContext := sessionContext c;
     alpnAllowMismatch := alpnAllowMismatch c |}.

Definition update_nextProtocols
    (f : list folly.NextProtocolsItem -> list folly.NextProtocolsItem)
    (c : SSLContextConfig) : SSLContextConfig :=
  {| certificates := certificates c;
     delegatedCredentials := delegatedCredentials c;
     sslVersion := sslVersion c;
     sessionCacheEnabled := sessionCacheEnabled c;
     sessionTicketEnabled := sessionTicketEnabled c;
     sslCiphers := sslCiphers c;
     sslCiphersuites := sslCiphersuites c;
     sigAlgs := sigAlgs c;
     eccCurveName := eccCurveName c;
     nextProtocols := f (nextProtocols c);
     isLocalPrivateKey := isLocalPrivateKey c;
     isDefault := isDefault c;
     clientCAFile := clientCAFile c;
     clientCAFiles := clientCAFiles c;
     clientVerification := clientVerification c;
     keyOffloadParams := keyOffloadParams c;
     offloadDisabled := offloadDisabled c;
     domains := domains c;
     shouldLoadFromProdCA := shouldLoadFromProdCA c;
     issuerType := issuerType c;
     sessionContext := sessionContext c;
     alpnAllowMismatch := alpnAllowMismatch c |}.

(** *** The builder member functions *)

(** The add-style functions hand their arguments straight to
    [emplace_back], which builds the new element from them before it
    moves or destroys any existing one; an argument bound to an element
    of the list is therefore read as the value it has at the call, and
    the functions take values. *)
Definition addCertificate (certPath_ keyPath_ passwordPath_ : string)
    (c : SSLContextConfig) : SSLContextConfig :=
  update_certificates
    (emplace_back (CertificateInfo_path certPath_ keyPath_ passwordPath_)) c.

Definition addCertificateBuf (cert key : string)
    (c : SSLContextConfig) : SSLContextConfig :=
  update_certificates (emplace_back (CertificateInfo_buf cert key)) c.

(** The base-class body of the virtual [setCertificate]:
    [certificates.clear()] runs first, and only then does
    [addCertificate] read the three parameters. *)
Definition setCertificate
    (certPath_ keyPath_ passwordPath_ : Arg CertificateInfo string)
    (c : SSLContextConfig) : option SSLContextConfig :=
  let cleared := update_certificates clear c in
  crt ← deref (certificates cleared) certPath_;
  ky ← deref (certificates cleared) keyPath_;
  pw ← deref (certificates cleared) passwordPath_;
  Some (addCertificate crt ky pw cleared).

Definition setCertificateBuf (cert key : Arg CertificateInfo string)
    (c : SSLContextConfig) : option SSLContextConfig :=
  let cleared := update_certificates clear c in
  crt ← deref (certificates cleared) cert;
  ky ← deref (certificates cleared) key;
  Some (addCertificateBuf crt ky cleared).

Definition addDelegatedCredential (credPath : string)
    (c : SSLContextConfig) : SSLContextConfig :=
  update_delegatedCredentials
    (emplace_back {| combinedCertPath := credPath |}) c.

Definition setDelegatedCredential (credPath : Arg DelegatedCredInfo string)
    (c : SSLContextConfig) : option SSLContextConfig :=
  let cleared := update_delegatedCredentials clear c in
  p ← deref (delegatedCredentials cleared) credPath;
  Some (addDelegatedCredential p cleared).

Definition setNextProtocols
    (inNextProtocols : Arg folly.NextProtocolsItem (list string))
    (c : SSLContextConfig) : option SSLContextConfig :=
  let cleared := update_nextProtocols clear c in
  l ← deref (nextProtocols cleared) inNextProtocols;
  Some (update_nextProtocols
          (emplace_back (folly.mkNextProtocolsItem 1 l)) cleared).

(** *** Sequences of builder calls *)

(** One call of a builder member function whose arguments are bound to
    objects outside the list the function works on, with the values of
    those objects. *)
Inductive BuilderCall :=
| SetCertificate (certPath_ keyPath_ passwordPath_ : string)
| SetCertificateBuf (cert key : string)
| AddCertificate (certPath_ keyPath_ passwordPath_ : string)
| AddCertificateBuf (cert key : string)
| SetDelegatedCredential (credPath : string)
| AddDelegatedCredential (credPath : string)
| SetNextProtocols (inNextProtocols : list string).

(** The configuration such a call leaves.  A set-style function is
    defined on detached arguments ([default] never falls back on [c]
    here, see [set_call_defined]). *)
Definition call (b : BuilderCall) (c : SSLContextConfig)
  : SSLContextConfig :=
  match b with
  | SetCertificate crt ky pw =>
      default c (setCertificate (detached crt) (detached ky) (detached pw) c)
  | SetCertificateBuf crt ky =>
      default c (setCertificateBuf (detached crt) (detached ky) c)
  | AddCertificate crt ky pw => addCertificate crt ky pw c
  | AddCertificateBuf crt ky => addCertificateBuf crt ky c
  | SetDelegatedCredential p =>
      default c (setDelegatedCredential (detached p) c)
  | AddDelegatedCredential p => addDelegatedCredential p c
  | SetNextProtocols l => default c (setNextProtocols (detached l) c)
  end.

(** The calls of a sequence, made one after the other on the same
    object. *)
Definition run (calls : list BuilderCall) (c : SSLContextConfig)
  : SSLContextConfig :=
  fold_left (fun acc b => call b acc) calls c.

(** What a call hands to [certificates.emplace_back], if anything. *)
Definition certificate_entry (b : BuilderCall) : option CertificateInfo :=
  match b with
  | SetCertificate crt ky pw | AddCertificate crt ky pw =>
      Some (CertificateInfo_path crt ky pw)
  | SetCertificateBuf crt ky | AddCertificateBuf crt ky =>
      Some (CertificateInfo_buf crt ky)
  | _ => None
  end.

Definition is_set_certificate (b : BuilderCall) : bool :=
  match b with
  | SetCertificate _ _ _ | SetCertificateBuf _ _ => true
  | _ => false
  end.

(** What a call hands to [delegatedCredentials.emplace_back], if
    anything. *)
Definition credential_entry (b : BuilderCall) : option DelegatedCredInfo :=
  match b with
  | SetDelegatedCredential p | AddDelegatedCredential p =>
      Some {| combinedCertPath := p |}
  | _ => None
  end.

Definition is_set_credential (b : BuilderCall) : bool :=
  match b with
  | SetDelegatedCredential _ => true
  | _ => false
  end.

(** *** The specification's reading of a call sequence *)

(** The last set-style call of a sequence together with the calls made
    after it; [None] when the sequence has no set-style call. *)
Fixpoint since_last_set (is_set : BuilderCall -> bool)
    (calls : list BuilderCall) : option (BuilderCall * list BuilderCall) :=
  match calls with
  | [] => None
  | b :: rest =>
      match since_last_set is_set rest with
      | Some found => Some found
      | None => if is_set b then Some (b, rest) else None
      end
  end.

(** "Replaying only the calls after the last set call, preceded by that
    set call's single entry"; without any set call the entries extend
    the list the sequence started from. *)
Definition replay_certificates (initial : list CertificateInfo)
    (calls : list BuilderCall) : list CertificateInfo :=
  match since_last_set is_set_certificate calls with
  | Some (s, after) =>
      omap certificate_entry [s] ++ omap certificate_entry after
  | None => initial ++ omap certificate_entry calls
  end.

(** "The net effect of that sequence read left-to-right, with set acting
    as an implicit clear", on the delegated-credential list alone. *)
Definition credential_effect (l : list DelegatedCredInfo)
    (b : BuilderCall) : list DelegatedCredInfo :=
  match b with
  | SetDelegatedCredential p => [{| combinedCertPath := p |}]
  | AddDelegatedCredential p => l ++ [{| combinedCertPath := p |}]
  | _ => l
  end.

Definition net_credentials (initial : list DelegatedCredInfo)
    (calls : list BuilderCall) : list DelegatedCredInfo :=
  fold_left credential_effect calls initial.

(** *** Observing one data member *)

Inductive Member :=
| m_certificates | m_delegatedCredentials | m_sslVersion
| m_sessionCacheEnabled | m_sessionTicketEnabled | m_sslCiphers
| m_sslCiphersuites | m_sigAlgs | m_eccCurveName | m_nextProtocols
| m_isLocalPrivateKey | m_isDefault | m_clientCAFile | m_clientCAFiles
| m_clientVerification | m_keyOffloadParams | m_offloadDisabled
| m_domains | m_shouldLoadFromProdCA | m_issuerType | m_sessionContext
| m_alpnAllowMismatch.

(** Two configurations hold the same value in member [m]. *)
Definition same_member (m : Member) (c c' : SSLContextConfig) : Prop :=
  match m with
  | m_certificates => certificates c = certificates c'
  | m_delegatedCredentials => delegatedCredentials c = delegatedCredentials c'
  | m_sslVersion => sslVersion c = sslVersion c'
  | m_sessionCacheEnabled => sessionCacheEnabled c = sessionCacheEnabled c'
  | m_sessionTicketEnabled => sessionTicketEnabled c = sessionTicketEnabled c'
  | m_sslCiphers => sslCiphers c = sslCiphers c'
  | m_sslCiphersuites => sslCiphersuites c = sslCiphersuites c'
  | m_sigAlgs => sigAlgs c = sigAlgs c'
  | m_eccCurveName => eccCurveName c = eccCurveName c'
  | m_nextProtocols => nextProtocols c = nextProtocols c'
  | m_isLocalPrivateKey => isLocalPrivateKey c = isLocalPrivateKey c'
  | m_isDefault => isDefault c = isDefault c'
  | m_clientCAFile => clientCAFile c = clientCAFile c'
  | m_clientCAFiles => clientCAFiles c = clientCAFiles c'
  | m_clientVerification => clientVerification c = clientVerification c'
  | m_keyOffloadParams => keyOffloadParams c = keyOffloadParams c'
  | m_offloadDisabled => offloadDisabled c = offloadDisabled c'
  | m_domains => domains c = domains c'
  | m_shouldLoadFromProdCA => shouldLoadFromProdCA c = shouldLoadFromProdCA c'
  | m_issuerType => issuerType c = issuerType c'
  | m_sessionContext => sessionContext c = sessionContext c'
  | m_alpnAllowMismatch => alpnAllowMismatch c = alpnAllowMismatch c'
  end.

(** The one member a builder call writes to. *)
Definition written (b : BuilderCall) : Member :=
  match b with
  | SetCertificate _ _ _ | SetCertificateBuf _ _
  | AddCertificate _ _ _ | AddCertificateBuf _ _ => m_certificates
  | SetDelegatedCredential _ | AddDelegatedCredential _ =>
      m_delegatedCredentials
  | SetNextProtocols _ => m_nextProtocols
  end.

(** *** A process constructing configurations *)

(** What a process can do with this header as far as the statics are
    concerned: construct a configuration or call a getter directly. *)
Inductive ProcessStep :=
| Construct
| GetDefaultCiphers
| GetDefaultCiphersuites
| GetDefaultSigAlgs.

(** One step; the configurations constructed so far are collected in
    construction order. *)
Definition process_step (acc : list SSLContextConfig * ProcessStatics)
    (p : ProcessStep) : list SSLContextConfig * ProcessStatics :=
  match p with
  | Construct =>
      let (c, st) := construct acc.2 in (acc.1 ++ [c], st)
  | GetDefaultCiphers => (acc.1, (getDefaultCiphers acc.2).2)
  | GetDefaultCiphersuites => (acc.1, (getDefaultCiphersuites acc.2).2)
  | GetDefaultSigAlgs => (acc.1, (getDefaultSigAlgs acc.2).2)
  end.

Definition run_process (steps : list ProcessStep)
  : list SSLContextConfig * ProcessStatics :=
  fold_left process_step steps ([], process_start).

(** A static is either untouched or holds [init] after exactly one
    evaluation of its initialiser. *)
Definition static_settled (init : string) (sl : StaticLocal) : Prop :=
  (cell sl = None /\ initialisations sl = 0)
  \/ (cell sl = Some init /\ initialisations sl = 1).

(** All three statics of the header are settled on the joined canonical
    lists. *)
Definition statics_settled (st : ProcessStatics) : Prop :=
  static_settled (folly.join ":" ciphers) (defaultCiphers st)
  /\ static_settled (folly.join ":" ciphersuites) (defaultCiphersuites st)
  /\ static_settled (folly.join ":" sigalgs) (defaultSigAlgs st).

(** Each of the three initialisers has been evaluated exactly once. *)
Definition statics_initialised_once (st : ProcessStatics) : Prop :=
  initialisations (defaultCiphers st) = 1
  /\ initialisations (defaultCiphersuites st) = 1
  /\ initialisations (defaultSigAlgs st) = 1.

(** The three default strings a configuration holds. *)
Definition default_strings (c : SSLContextConfig)
  : string * string * string :=
  (sslCiphers c, sslCiphersuites c, sigAlgs c).

(** What holds of a process at every point of its run. *)
Definition process_invariant
    (acc : list SSLContextConfig * ProcessStatics) : Prop :=
  statics_settled acc.2
  /\ Forall (fun c => default_strings c
                      = (folly.join ":" ciphers,
                         folly.join ":" ciphersuites,
                         folly.join ":" sigalgs)) acc.1
  /\ (acc.1 = [] \/ statics_initialised_once acc.2).

(** *** Further readings of a call sequence *)

(** The calls that begin with [clear()]. *)
Definition is_set_style (b : BuilderCall) : bool :=
  match b with
  | SetCertificate _ _ _ | SetCertificateBuf _ _
  | SetDelegatedCredential _ | SetNextProtocols _ => true
  | _ => false
  end.

(** The argument of the last [setNextProtocols] call of a sequence. *)
Fixpoint last_next_protocols (calls : list BuilderCall)
  : option (list string) :=
  match calls with
  | [] => None
  | b :: rest =>
      match last_next_protocols rest with
      | Some l => Some l
      | None => match b with SetNextProtocols l => Some l | _ => None end
      end
  end.

(** The add-style and the set-style call that hand the members of an
    entry back to the constructor the entry's [isBuffer] selects. *)
Definition add_call_for (e : CertificateInfo) : BuilderCall :=
  if isBuffer e then AddCertificateBuf (certPath e) (keyPath e)
  else AddCertificate (certPath e) (keyPath e) (passwordPath e).

Definition set_call_for (e : CertificateInfo) : BuilderCall :=
  if isBuffer e then SetCertificateBuf (certPath e) (keyPath e)
  else SetCertificate (certPath e) (keyPath e) (passwordPath e).

(** A call sequence written down from a certificate list: one set-style
    call for the first entry, one add-style call for each later entry. *)
Definition calls_for (l : list CertificateInfo) : list BuilderCall :=
  match l with
  | [] => []
  | e :: rest => set_call_for e :: map add_call_for rest
  end.

#[global] Instance Member_eq_dec : EqDecision Member.
Proof. solve_decision. Defined.

End Config.

Arguments SSLContextConfig : clear implicits.

(** ** Sample data for evaluating the model *)

Module Sample.

Inductive SSLVersion := TLSv1_2 | TLSv1_3.

Definition ciphers : list string :=
  ["ECDHE-ECDSA-AES128-GCM-SHA256"; "ECDHE-RSA-AES128-GCM-SHA256"].
Definition ciphersuites : list string :=
  ["TLS_AES_128_GCM_SHA256"; "TLS_AES_256_GCM_SHA384"].
Definition sigalgs : list string :=
  ["ecdsa_secp256r1_sha256"; "rsa_pss_rsae_sha256"].

(** The first configuration a process constructs. *)
Definition config : SSLContextConfig SSLVersion :=
  (construct TLSv1_2 ciphers ciphersuites sigalgs process_start).1.

End Sample.

(** ** Properties *)

Section Properties.

Context {SSLVersion : Type} (TLSv1_2 : SSLVersion).
Context (ciphers ciphersuites sigalgs : list string).

Local Abbreviation Config := (SSLContextConfig SSLVersion).
Local Abbreviation fresh st :=
  ((construct TLSv1_2 ciphers ciphersuites sigalgs st).1).
Local Abbreviation process :=
  (run_process TLSv1_2 ciphers ciphersuites sigalgs).
Local Abbreviation settled :=
  (statics_settled ciphers ciphersuites sigalgs).

(** *** Call sequences *)

Lemma run_nil (c : Config) : run [] c = c.
Proof. reflexivity. Qed.

Lemma run_cons (b : BuilderCall) (calls : list BuilderCall) (c : Config) :
  run (b :: calls) c = run calls (call b c).
Proof. reflexivity. Qed.

Lemma run_app (calls calls' : list BuilderCall) (c : Config) :
  run (calls ++ calls') c = run calls' (run calls c).
Proof. unfold run. apply fold_left_app. Qed.

(** The certificate list after one call, whatever the call. *)
Lemma certificates_call (b : BuilderCall) (c : Config) :
  certificates (call b c) =
  match certificate_entry b with
  | Some e => (if is_set_certificate b then [] else certificates c) ++ [e]
  | None => certificates c
  end.
Proof. destruct b; reflexivity. Qed.

(** The delegated-credential list after one call, whatever the call. *)
Lemma delegatedCredentials_call (b : BuilderCall) (c : Config) :
  delegatedCredentials (call b c) =
  match credential_entry b with
  | Some e =>
      (if is_set_credential b then [] else delegatedCredentials c) ++ [e]
  | None => delegatedCredentials c
  end.
Proof. destruct b; reflexivity. Qed.

Lemma certificate_entry_unambiguous (b : BuilderCall) (e : CertificateInfo) :
  certificate_entry b = Some e -> ambiguous e = false.
Proof. destruct b; intros [= <-]; reflexivity. Qed.

(** A set-style function called with detached arguments has a defined
    result, the one [call] gives. *)
Lemma set_call_defined (c : Config) :
  (forall crt ky pw : string,
      setCertificate (detached crt) (detached ky) (detached pw) c
        = Some (call (SetCertificate crt ky pw) c))
  /\ (forall crt ky : string,
        setCertificateBuf (detached crt) (detached ky) c
          = Some (call (SetCertificateBuf crt ky) c))
  /\ (forall p : string,
        setDelegatedCredential (detached p) c
          = Some (call (SetDelegatedCredential p) c))
  /\ (forall l : list string,
        setNextProtocols (detached l) c
          = Some (call (SetNextProtocols l) c)).
Proof. repeat split. Qed.

Example run_set_discards_earlier_adds :
  certificates
    (run [AddCertificate "a.crt" "a.key" "a.pw";
          SetCertificate "b.crt" "b.key" "";
          SetNextProtocols ["h2"];
          AddCertificateBuf "CERT" "KEY"] Sample.config)
  = [CertificateInfo_path "b.crt" "b.key" "";
     CertificateInfo_buf "CERT" "KEY"].
Proof. reflexivity. Qed.

Example since_last_set_finds_last :
  since_last_set is_set_certificate
    [SetCertificate "a" "b" "c"; AddCertificate "d" "e" "f";
     SetCertificateBuf "g" "h"; AddCertificate "i" "j" "k"]
  = Some (SetCertificateBuf "g" "h", [AddCertificate "i" "j" "k"]).
Proof. reflexivity. Qed.

(** X13. After any sequence of builder calls whose arguments are bound
    outside the list they work on, the certificate list is the entry of
    the last set-style call followed by the entries of the calls made
    after it, in call order; a sequence without a set-style call appends
    its entries, in call order, to the list it started from.  The
    set-style calls are [setCertificate] and [setCertificateBuf]; calls
    on the other lists may be interleaved and contribute nothing. *)
Theorem certificates_replay_from_last_set
    (calls : list BuilderCall) (c : Config) :
  certificates (run calls c) = replay_certificates (certificates c) calls
  /\ (forall crt ky pw : string,
        certificates
          <$> setCertificate (detached crt) (detached ky) (detached pw) c
          = Some [CertificateInfo_path crt ky pw])
  /\ (forall crt ky pw : string,
        certificates (addCertificate crt ky pw c)
          = certificates c ++ [CertificateInfo_path crt ky pw]).
Proof.
  split; [|split; reflexivity].
  revert c. induction calls as [|b calls IH]; intros c.
  - unfold replay_certificates. simpl. now rewrite app_nil_r.
  - rewrite run_cons, IH. unfold replay_certificates.
    cbn [since_last_set].
    destruct (since_last_set is_set_certificate calls) as [[s after]|];
      [reflexivity|].
    rewrite certificates_call.
    destruct b; cbn; rewrite <- ?app_assoc; reflexivity.
Qed.

(** X14. After any sequence of builder calls whose arguments are bound
    outside the list they work on, the delegated-credential list is the
    net effect of the sequence read left to right:
    [setDelegatedCredential] replaces the list by the one entry with the
    given path, [addDelegatedCredential] appends one such entry, and no
    other call touches the list. *)
Theorem delegatedCredentials_net_effect
    (calls : list BuilderCall) (c : Config) :
  delegatedCredentials (run calls c)
    = net_credentials (delegatedCredentials c) calls
  /\ (forall p : string,
        delegatedCredentials <$> setDelegatedCredential (detached p) c
          = Some [{| combinedCertPath := p |}])
  /\ (forall p : string,
        delegatedCredentials (addDelegatedCredential p c)
          = delegatedCredentials c ++ [{| combinedCertPath := p |}]).
Proof.
  split; [|split; reflexivity].
  revert c. induction calls as [|b calls IH]; intros c; [reflexivity|].
  rewrite run_cons, IH. unfold net_credentials. cbn [fold_left].
  f_equal. rewrite delegatedCredentials_call.
  destruct b; reflexivity.
Qed.

(** *** The entries the builder stores *)

Lemma certificates_run_unambiguous (calls : list BuilderCall) (c : Config) :
  Forall (fun e => ambiguous e = false) (certificates c) ->
  Forall (fun e => ambiguous e = false) (certificates (run calls c)).
Proof.
  revert c. induction calls as [|b calls IH]; intros c Hc; [exact Hc|].
  rewrite run_cons. apply IH. rewrite certificates_call.
  destruct (certificate_entry b) as [e|] eqn:He; [|exact Hc].
  apply Forall_app. split.
  - destruct (is_set_certificate b); [constructor | exact Hc].
  - repeat constructor. exact (certificate_entry_unambiguous b e He).
Qed.

Lemma ambiguous_false (e : CertificateInfo) :
  ambiguous e = false -> isBuffer e = true -> passwordPath e = "".
Proof.
  unfold ambiguous. intros Ha Hb. rewrite Hb in Ha. cbn in Ha.
  apply negb_false_iff in Ha. now apply String.eqb_eq.
Qed.

(** Exposes the record a default construction builds. *)
Ltac open_construct :=
  unfold construct;
  destruct (getDefaultCiphers _ _) as [? ?];
  destruct (getDefaultCiphersuites _ _) as [? ?];
  destruct (getDefaultSigAlgs _ _) as [? ?].

Lemma certificates_construct (st : ProcessStatics) :
  certificates (fresh st) = [].
Proof. open_construct. reflexivity. Qed.

(** C3. Every entry of the certificate list of a configuration that was
    default-constructed and then populated by any sequence of builder
    calls has an empty [passwordPath] whenever its [isBuffer] is true;
    and [setCertificateBuf] called with the strings "CERT" and "KEY" on
    any configuration leaves one entry, with [isBuffer] true and an empty
    [passwordPath]. *)
Theorem buffer_entries_have_no_password :
  (forall (st : ProcessStatics) (calls : list BuilderCall)
          (e : CertificateInfo),
      e ∈ certificates (run calls (fresh st)) ->
      isBuffer e = true -> passwordPath e = "")
  /\ (forall c : Config,
        exists e : CertificateInfo,
          certificates
            <$> setCertificateBuf (detached "CERT") (detached "KEY") c
            = Some [e]
          /\ isBuffer e = true /\ passwordPath e = "").
Proof.
  split.
  - intros st calls e Hin Hbuf.
    apply ambiguous_false; [|exact Hbuf].
    pose proof (certificates_run_unambiguous calls (fresh st)) as H.
    rewrite certificates_construct in H.
    specialize (H ltac:(constructor)).
    rewrite Forall_forall in H. now apply H.
  - intros c. exists (CertificateInfo_buf "CERT" "KEY"). now repeat split.
Qed.

(** C6. An entry that is buffer-sourced and names a password file cannot
    be built at the builder boundary: neither constructor builds one,
    the buffer-style functions have no password parameter to supply one
    through, so no call hands one to [emplace_back]; and no such entry is
    ever stored through the builder operations, whether the list was
    empty or held unambiguous entries before, and whatever the arguments
    of the set-style functions are bound to. *)
Theorem no_ambiguous_entry_through_builder :
  (forall crt ky pw : string,
      ambiguous (CertificateInfo_path crt ky pw) = false)
  /\ (forall crt ky : string, ambiguous (CertificateInfo_buf crt ky) = false)
  /\ (forall (b : BuilderCall) (e : CertificateInfo),
        ambiguous e = true -> certificate_entry b <> Some e)
  /\ (forall (st : ProcessStatics) (calls : list BuilderCall),
        Forall (fun e => ambiguous e = false)
          (certificates (run calls (fresh st))))
  /\ (forall (calls : list BuilderCall) (c : Config),
        Forall (fun e => ambiguous e = false) (certificates c) ->
        Forall (fun e => ambiguous e = false) (certificates (run calls c)))
  /\ (forall (a1 a2 a3 : Arg CertificateInfo string) (c c' : Config),
        setCertificate a1 a2 a3 c = Some c' ->
        Forall (fun e => ambiguous e = false) (certificates c'))
  /\ (forall (a1 a2 : Arg CertificateInfo string) (c c' : Config),
        setCertificateBuf a1 a2 c = Some c' ->
        Forall (fun e => ambiguous e = false) (certificates c')).
Proof.
  split; [reflexivity|]. split; [reflexivity|]. split.
  { intros b e Hamb He.
    rewrite (certificate_entry_unambiguous b e He) in Hamb. discriminate. }
  split.
  { intros st calls.
    apply certificates_run_unambiguous.
    rewrite certificates_construct. constructor. }
  split; [exact certificates_run_unambiguous|]. split.
  - intros a1 a2 a3 c c'. unfold setCertificate.
    destruct a1, a2, a3; cbn; intros H; try discriminate H;
      injection H as <-; repeat constructor.
  - intros a1 a2 c c'. unfold setCertificateBuf.
    destruct a1, a2; cbn; intros H; try discriminate H;
      injection H as <-; repeat constructor.
Qed.

(** *** Next protocols *)


(** C2, as amended. [setNextProtocols] called with an empty list leaves
    exactly one entry, of weight 1, whose protocol sequence is empty: no
    protocol name is advertised, but the advertisement list itself has
    length one. *)
Theorem setNextProtocols_nil_one_empty_entry (c : Config) :
  nextProtocols <$> setNextProtocols (detached []) c
    = Some [{| folly.weight := 1; folly.protocols := [] |}]
  /\ length <$> (nextProtocols <$> setNextProtocols (detached []) c)
       = Some 1
  /\ (fun items => concat (map folly.protocols items))
       <$> (nextProtocols <$> setNextProtocols (detached []) c)
       = Some [].
Proof. repeat split. Qed.



(** *** Frame *)

Lemma call_keeps_client_members (b : BuilderCall) (c : Config) :
  clientVerification (call b c) = clientVerification c
  /\ clientCAFile (call b c) = clientCAFile c
  /\ clientCAFiles (call b c) = clientCAFiles c.
Proof. destruct b; repeat split. Qed.

(** C10. A builder call changes no data member but the one list it
    writes to: [certificates] for the four certificate calls,
    [delegatedCredentials] for the two delegated-credential calls,
    [nextProtocols] for [setNextProtocols]. *)
Theorem call_changes_only_written_member
    (b : BuilderCall) (c : Config) (m : Member) :
  m <> written b -> same_member m c (call b c).
Proof.
  intros Hm. destruct b; destruct m; solve [reflexivity | now destruct Hm].
Qed.

(** *** Defaults *)

(** C8. A default-constructed configuration has an empty set of offload
    key types, service identifier "default", certificate offload
    switched off, and [offloadDisabled] true. *)
Theorem construct_offload_defaults (st : ProcessStatics) :
  offloadType (keyOffloadParams (fresh st)) = ∅
  /\ serviceId (keyOffloadParams (fresh st)) = "default"
  /\ enableCertOffload (keyOffloadParams (fresh st)) = false
  /\ offloadDisabled (fresh st) = true.
Proof. open_construct. repeat split. Qed.

(** C9. A default-constructed configuration verifies client certificates
    always and names no client CA file, and every sequence of builder
    calls goes through on it and leaves that combination in place. *)
Theorem always_verify_without_trust_files
    (st : ProcessStatics) (calls : list BuilderCall) :
  clientVerification (run calls (fresh st)) = folly.ALWAYS
  /\ clientCAFile (run calls (fresh st)) = ""
  /\ clientCAFiles (run calls (fresh st)) = [].
Proof.
  assert (Hfresh : clientVerification (fresh st) = folly.ALWAYS
                   /\ clientCAFile (fresh st) = ""
                   /\ clientCAFiles (fresh st) = [])
    by (open_construct; repeat split).
  revert Hfresh. generalize (fresh st) as c.
  induction calls as [|b calls IH]; intros c Hc; [exact Hc|].
  rewrite run_cons. apply IH.
  destruct (call_keeps_client_members b c) as (-> & -> & ->). exact Hc.
Qed.

(** *** The process-wide default strings *)

Lemma static_local_settled (init : string) (sl : StaticLocal) :
  static_settled init sl ->
  (static_local init sl).1 = init
  /\ cell (static_local init sl).2 = Some init
  /\ initialisations (static_local init sl).2 = 1.
Proof.
  unfold static_local.
  intros [[Hcell Hcount]|[Hcell Hcount]]; rewrite Hcell; cbn.
  - rewrite Hcount. auto.
  - auto.
Qed.

Lemma static_local_keeps_settled (init : string) (sl : StaticLocal) :
  static_settled init sl -> static_settled init (static_local init sl).2.
Proof.
  intros H. right.
  destruct (static_local_settled init sl H) as (_ & ? & ?). auto.
Qed.

Lemma static_local_keeps_count (init : string) (sl : StaticLocal) :
  static_settled init sl -> initialisations sl = 1 ->
  initialisations (static_local init sl).2 = 1.
Proof.
  intros H _. now destruct (static_local_settled init sl H) as (_ & _ & ?).
Qed.

(** A construction in a settled process reads the joined canonical lists
    and leaves every initialiser evaluated exactly once. *)
Lemma construct_settled (st : ProcessStatics) :
  settled st ->
  default_strings (fresh st)
    = (folly.join ":" ciphers, folly.join ":" ciphersuites,
       folly.join ":" sigalgs)
  /\ settled (construct TLSv1_2 ciphers ciphersuites sigalgs st).2
  /\ statics_initialised_once
       (construct TLSv1_2 ciphers ciphersuites sigalgs st).2.
Proof.
  intros (H1 & H2 & H3).
  pose proof (static_local_settled _ _ H1) as (E1 & C1 & N1).
  pose proof (static_local_settled _ _ H2) as (E2 & C2 & N2).
  pose proof (static_local_settled _ _ H3) as (E3 & C3 & N3).
  unfold construct, getDefaultCiphers, getDefaultCiphersuites,
    getDefaultSigAlgs, statics_settled, statics_initialised_once,
    static_settled, default_strings.
  destruct (static_local _ (defaultCiphers st)) as [s1 l1]. cbn.
  destruct (static_local _ (defaultCiphersuites st)) as [s2 l2]. cbn.
  destruct (static_local _ (defaultSigAlgs st)) as [s3 l3].
  cbn in *. subst. auto 10.
Qed.

Lemma getter_settled (st : ProcessStatics) :
  settled st ->
  settled (getDefaultCiphers ciphers st).2
  /\ settled (getDefaultCiphersuites ciphersuites st).2
  /\ settled (getDefaultSigAlgs sigalgs st).2.
Proof.
  intros (H1 & H2 & H3).
  pose proof (static_local_keeps_settled _ _ H1) as K1.
  pose proof (static_local_keeps_settled _ _ H2) as K2.
  pose proof (static_local_keeps_settled _ _ H3) as K3.
  unfold getDefaultCiphers, getDefaultCiphersuites, getDefaultSigAlgs,
    statics_settled.
  destruct (static_local _ (defaultCiphers st)) as [s1 l1].
  destruct (static_local _ (defaultCiphersuites st)) as [s2 l2].
  destruct (static_local _ (defaultSigAlgs st)) as [s3 l3].
  cbn in *. auto 10.
Qed.

Lemma getter_initialised_once (st : ProcessStatics) :
  settled st -> statics_initialised_once st ->
  statics_initialised_once (getDefaultCiphers ciphers st).2
  /\ statics_initialised_once (getDefaultCiphersuites ciphersuites st).2
  /\ statics_initialised_once (getDefaultSigAlgs sigalgs st).2.
Proof.
  intros (H1 & H2 & H3) (N1 & N2 & N3).
  pose proof (static_local_keeps_count _ _ H1 N1) as K1.
  pose proof (static_local_keeps_count _ _ H2 N2) as K2.
  pose proof (static_local_keeps_count _ _ H3 N3) as K3.
  unfold getDefaultCiphers, getDefaultCiphersuites, getDefaultSigAlgs,
    statics_initialised_once.
  destruct (static_local _ (defaultCiphers st)) as [s1 l1].
  destruct (static_local _ (defaultCiphersuites st)) as [s2 l2].
  destruct (static_local _ (defaultSigAlgs st)) as [s3 l3].
  cbn in *. auto 10.
Qed.

Lemma process_step_invariant
    (acc : list Config * ProcessStatics) (p : ProcessStep) :
  process_invariant ciphers ciphersuites sigalgs acc ->
  process_invariant ciphers ciphersuites sigalgs
    (process_step TLSv1_2 ciphers ciphersuites sigalgs acc p).
Proof.
  destruct acc as [made st]. unfold process_invariant.
  intros (Hst & Hmade & Honce). cbn [fst snd] in *.
  destruct p; cbn [process_step fst snd].
  - destruct (construct_settled st Hst) as (Hc & Hst' & Honce').
    destruct (construct _ _ _ _ st) as [c st']. cbn [fst snd] in *.
    split; [exact Hst'|]. split; [|now right].
    apply Forall_app. split; [exact Hmade|]. now repeat constructor.
  - destruct (getter_settled st Hst) as (? & _ & _).
    split; [assumption|]. split; [exact Hmade|].
    destruct Honce as [->|Honce]; [now left|right].
    now destruct (getter_initialised_once st Hst Honce) as (? & _ & _).
  - destruct (getter_settled st Hst) as (_ & ? & _).
    split; [assumption|]. split; [exact Hmade|].
    destruct Honce as [->|Honce]; [now left|right].
    now destruct (getter_initialised_once st Hst Honce) as (_ & ? & _).
  - destruct (getter_settled st Hst) as (_ & _ & ?).
    split; [assumption|]. split; [exact Hmade|].
    destruct Honce as [->|Honce]; [now left|right].
    now destruct (getter_initialised_once st Hst Honce) as (_ & _ & ?).
Qed.

Lemma run_process_invariant (steps : list ProcessStep) :
  process_invariant ciphers ciphersuites sigalgs (process steps).
Proof.
  unfold run_process.
  assert (H0 : process_invariant ciphers ciphersuites sigalgs
                 (([], process_start) : list Config * ProcessStatics)).
  { split; [|split; [constructor | now left]].
    repeat split; left; split; reflexivity. }
  revert H0.
  generalize (([], process_start) : list Config * ProcessStatics).
  induction steps as [|p steps IH]; intros acc Hacc; [exact Hacc|].
  cbn [fold_left]. apply IH. now apply process_step_invariant.
Qed.


(** ** How the builder calls compose *)

Lemma call_after_same_member (b b' : BuilderCall) (c : Config) :
  is_set_style b = true -> written b' = written b ->
  call b (call b' c) = call b c.
Proof. destruct b, b'; try discriminate; reflexivity. Qed.

Lemma call_swap (b b' : BuilderCall) (c : Config) :
  written b <> written b' -> call b (call b' c) = call b' (call b c).
Proof.
  intros Hw. destruct b, b'; solve [reflexivity | now destruct Hw].
Qed.

Lemma call_past_run (b : BuilderCall) (calls : list BuilderCall) (c : Config) :
  Forall (fun b' => written b <> written b') calls ->
  call b (run calls c) = run calls (call b c).
Proof.
  revert c. induction calls as [|b' calls IH]; intros c Hall; [reflexivity|].
  inversion Hall as [|? ? Hb' Hrest]; subst.
  rewrite !run_cons, IH by exact Hrest. now rewrite call_swap.
Qed.

(** X1. A set-style call whose arguments are bound outside the list it
    clears makes the calls made before it on the same list irrelevant:
    after any sequence of calls that all write the list [b] writes,
    calling [b] gives the configuration that calling [b] alone would have
    given.  In particular such a call made twice with the same values is
    the same as made once.  (A set-style call whose argument is bound to
    an entry an earlier call stored is not a [BuilderCall]; it has no
    defined result.) *)
Theorem set_call_absorbs_history
    (b : BuilderCall) (calls : list BuilderCall) (c : Config) :
  is_set_style b = true ->
  Forall (fun b' => written b' = written b) calls ->
  call b (run calls c) = call b c.
Proof.
  intros Hset. revert c.
  induction calls as [|b' calls IH]; intros c Hall; [reflexivity|].
  inversion Hall as [|? ? Hb' Hrest]; subst.
  rewrite run_cons, IH by exact Hrest.
  now apply call_after_same_member.
Qed.

(** X2. Two calls that write different lists commute: made in either
    order on any configuration they give the same configuration. *)
Theorem calls_on_different_lists_commute
    (b1 b2 : BuilderCall) (c : Config) :
  written b1 <> written b2 ->
  call b2 (call b1 c) = call b1 (call b2 c).
Proof. intros Hw. symmetry. now apply call_swap. Qed.

(** X3. Two add-style certificate calls do not commute unless they store
    the same entry: the entries land behind the existing ones in call
    order, so swapping the calls gives a different list. *)
Theorem certificate_adds_keep_call_order
    (b1 b2 : BuilderCall) (e1 e2 : CertificateInfo) (c : Config) :
  certificate_entry b1 = Some e1 -> is_set_certificate b1 = false ->
  certificate_entry b2 = Some e2 -> is_set_certificate b2 = false ->
  certificates (call b2 (call b1 c)) = certificates c ++ [e1; e2]
  /\ (e1 <> e2 ->
      certificates (call b2 (call b1 c)) <> certificates (call b1 (call b2 c))).
Proof.
  intros He1 Hs1 He2 Hs2.
  rewrite !certificates_call, He1, He2, Hs1, Hs2.
  rewrite <- !app_assoc. cbn [app]. split; [reflexivity|].
  intros Hne Heq. apply app_inv_head in Heq. congruence.
Qed.

(** X12. The calls that write one list can be moved, in their order, in
    front of all the other calls of a sequence without changing the
    configuration the sequence produces. *)
Theorem run_grouped_by_member
    (m : Member) (calls : list BuilderCall) (c : Config) :
  run (filter (fun b => written b = m) calls
       ++ filter (fun b => written b <> m) calls) c
  = run calls c.
Proof.
  revert c. induction calls as [|b calls IH]; intros c; [reflexivity|].
  destruct (decide (written b = m)) as [Hb|Hb].
  - rewrite filter_cons_True, filter_cons_False by (cbn; tauto).
    cbn [app]. now rewrite !run_cons, IH.
  - rewrite filter_cons_False, filter_cons_True by assumption.
    rewrite run_app, run_cons, call_past_run.
    + rewrite <- run_app, IH. reflexivity.
    + apply Forall_forall. intros b' Hin.
      apply list_elem_of_filter in Hin as [Hb' _]. congruence.
Qed.

(** X11. On the certificate list, and on the delegated-credential list, a
    set call and the add call with the same arguments give the same
    configuration exactly when the list is empty beforehand. *)
Theorem set_is_add_iff_list_empty (c : Config) :
  (forall crt ky pw : string,
      setCertificate (detached crt) (detached ky) (detached pw) c
        = Some (addCertificate crt ky pw c)
      <-> certificates c = [])
  /\ (forall crt ky : string,
        setCertificateBuf (detached crt) (detached ky) c
          = Some (addCertificateBuf crt ky c)
        <-> certificates c = [])
  /\ (forall p : string,
        setDelegatedCredential (detached p) c
          = Some (addDelegatedCredential p c)
        <-> delegatedCredentials c = []).
Proof.
  assert (Hback : forall (A : Type) (l : list A) (x : A),
             [x] = l ++ [x] -> l = []).
  { intros A l x Heq. apply (f_equal length) in Heq.
    rewrite length_app in Heq. cbn in Heq.
    destruct l; [reflexivity | cbn in Heq; lia]. }
  split; [|split]; intros; split.
  - intros Heq. injection Heq as Heq. exact (Hback _ _ _ Heq).
  - intros Hnil. destruct c; cbn in Hnil; subst; reflexivity.
  - intros Heq. injection Heq as Heq. exact (Hback _ _ _ Heq).
  - intros Hnil. destruct c; cbn in Hnil; subst; reflexivity.
  - intros Heq. injection Heq as Heq. exact (Hback _ _ _ Heq).
  - intros Hnil. destruct c; cbn in Hnil; subst; reflexivity.
Qed.

(** ** What a call sequence leaves in the lists *)

Lemma certificates_run_adds (calls : list BuilderCall) (c : Config) :
  Forall (fun b => is_set_certificate b = false) calls ->
  certificates (run calls c) = certificates c ++ omap certificate_entry calls.
Proof.
  revert c. induction calls as [|b calls IH]; intros c Hall.
  - cbn. now rewrite app_nil_r.
  - inversion Hall as [|? ? Hb Hrest]; subst.
    rewrite run_cons, IH, certificates_call, Hb by exact Hrest. cbn.
    destruct (certificate_entry b); [|reflexivity].
    now rewrite <- app_assoc.
Qed.

(** X4. The certificate list is empty after a call sequence only if it was
    empty before and the sequence holds no certificate call at all; the
    same for the delegated-credential list.  No call empties a list and
    leaves it empty. *)
Theorem list_empty_iff_never_written
    (calls : list BuilderCall) (c : Config) :
  (certificates (run calls c) = []
     <-> certificates c = [] /\ omap certificate_entry calls = [])
  /\ (delegatedCredentials (run calls c) = []
       <-> delegatedCredentials c = [] /\ omap credential_entry calls = []).
Proof.
  split; revert c; induction calls as [|b calls IH]; intros c;
    try (cbn; tauto); rewrite run_cons, IH.
  - rewrite certificates_call. cbn.
    destruct (certificate_entry b) as [e|]; [|reflexivity].
    split; [intros [H _] | intros [_ H]; discriminate H].
    destruct (if is_set_certificate b then [] else certificates c);
      discriminate H.
  - rewrite delegatedCredentials_call. cbn.
    destruct (credential_entry b) as [e|]; [|reflexivity].
    split; [intros [H _] | intros [_ H]; discriminate H].
    destruct (if is_set_credential b then [] else delegatedCredentials c);
      discriminate H.
Qed.

(** X5. After a call sequence whose [setNextProtocols] arguments are bound
    outside [nextProtocols], the advertisement list is the single
    weight-1 entry holding the argument of the last [setNextProtocols]
    call, or the list from before if the sequence has none; so a
    configuration populated through such calls never holds more than one
    entry, and never a weight other than 1. *)
Theorem nextProtocols_last_call_wins
    (calls : list BuilderCall) (c : Config) (st : ProcessStatics) :
  nextProtocols (run calls c)
    = match last_next_protocols calls with
      | Some l => [{| folly.weight := 1; folly.protocols := l |}]
      | None => nextProtocols c
      end
  /\ length (nextProtocols (run calls (fresh st))) <= 1
  /\ Forall (fun item => folly.weight item = 1%Z)
       (nextProtocols (run calls (fresh st))).
Proof.
  assert (Hrun : forall c' : Config,
    nextProtocols (run calls c')
    = match last_next_protocols calls with
      | Some l => [{| folly.weight := 1; folly.protocols := l |}]
      | None => nextProtocols c'
      end).
  { induction calls as [|b calls IH]; intros c'; [reflexivity|].
    rewrite run_cons, IH. cbn [last_next_protocols].
    destruct (last_next_protocols calls); [reflexivity|].
    destruct b; reflexivity. }
  split; [apply Hrun|]. rewrite Hrun.
  assert (Hfresh : nextProtocols (fresh st) = [])
    by (open_construct; reflexivity).
  rewrite Hfresh.
  destruct (last_next_protocols calls); cbn; split;
    first [lia | repeat constructor].
Qed.

(** X6. A sequence without set-style certificate calls never disturbs the
    entries already in the list: they stay at their positions, and the
    list grows by exactly one entry per certificate call, equal entries
    included. *)
Theorem add_only_sequence_extends
    (calls : list BuilderCall) (c : Config) :
  Forall (fun b => is_set_certificate b = false) calls ->
  certificates c `prefix_of` certificates (run calls c)
  /\ length (certificates (run calls c))
       = length (certificates c) + length (omap certificate_entry calls)
  /\ (forall (i : nat) (e : CertificateInfo),
        certificates c !! i = Some e ->
        certificates (run calls c) !! i = Some e).
Proof.
  intros Hall. rewrite (certificates_run_adds calls c Hall).
  split; [now apply prefix_app_r|]. split; [apply length_app|].
  intros i e Hi. now apply lookup_app_l_Some.
Qed.

Lemma calls_for_entry (e : CertificateInfo) :
  ambiguous e = false ->
  certificate_entry (add_call_for e) = Some e
  /\ certificate_entry (set_call_for e) = Some e
  /\ is_set_certificate (add_call_for e) = false
  /\ is_set_certificate (set_call_for e) = true.
Proof.
  destruct e as [crt ky pw [|]]; unfold ambiguous; cbn; intros Ha.
  - apply negb_false_iff, String.eqb_eq in Ha. subst pw. now repeat split.
  - now repeat split.
Qed.

(** X7. Every non-empty list of entries none of which is buffer-sourced
    with a password path can be produced through the builder, from any
    configuration: a set-style call for its first entry and an add-style
    call for each later one leave exactly that list, in that order. *)
Theorem calls_for_round_trip (l : list CertificateInfo) (c : Config) :
  l <> [] ->
  Forall (fun e => ambiguous e = false) l ->
  certificates (run (calls_for l) c) = l
  /\ omap certificate_entry (calls_for l) = l.
Proof.
  destruct l as [|e rest]; [congruence|]. intros _ Hall.
  inversion Hall as [|? ? He Hrest]; subst.
  destruct (calls_for_entry e He) as (_ & Hentry & _ & Hset).
  assert (Hadds : Forall (fun b => is_set_certificate b = false)
                    (map add_call_for rest)).
  { apply Forall_map. eapply Forall_impl; [exact Hrest|].
    intros e' He'. now destruct (calls_for_entry e' He') as (_ & _ & ? & _). }
  assert (Hentries : omap certificate_entry (map add_call_for rest) = rest).
  { clear Hadds Hall.
    induction Hrest as [|e' rest' He' _ IH]; [reflexivity|].
    destruct (calls_for_entry e' He') as (Hadd & _). cbn.
    rewrite Hadd. cbn in IH. now rewrite IH. }
  cbn [calls_for]. split.
  - rewrite run_cons, certificates_run_adds by exact Hadds.
    rewrite certificates_call, Hentry, Hset, Hentries. reflexivity.
  - cbn. rewrite Hentry. cbn in Hentries. now rewrite Hentries.
Qed.

Lemma same_member_trans (m : Member) (c1 c2 c3 : Config) :
  same_member m c1 c2 -> same_member m c2 c3 -> same_member m c1 c3.
Proof. destruct m; cbn; congruence. Qed.

(** X10. A call sequence changes no data member that none of its calls
    writes: a member other than the three lists is the same after any
    sequence, and each list is the same after any sequence of calls on
    the other two. *)
Theorem run_changes_only_written_members
    (m : Member) (calls : list BuilderCall) (c : Config) :
  Forall (fun b => written b <> m) calls ->
  same_member m c (run calls c).
Proof.
  revert c. induction calls as [|b calls IH]; intros c Hall.
  - destruct m; reflexivity.
  - inversion Hall as [|? ? Hb Hrest]; subst. rewrite run_cons.
    apply (same_member_trans m c (call b c)); [|now apply IH].
    destruct b; destruct m; solve [reflexivity | now destruct Hb].
Qed.

(** ** The statics after their first use *)

Ltac split_statics st :=
  destruct st as [[[?|] ?] [[?|] ?] [[?|] ?]].

Lemma construct_again (st : ProcessStatics) :
  construct TLSv1_2 ciphers ciphersuites sigalgs
    (construct TLSv1_2 ciphers ciphersuites sigalgs st).2
  = construct TLSv1_2 ciphers ciphersuites sigalgs st.
Proof. split_statics st; reflexivity. Qed.

Lemma getters_after_construct (st : ProcessStatics) :
  let st1 := (construct TLSv1_2 ciphers ciphersuites sigalgs st).2 in
  (getDefaultCiphers ciphers st1).2 = st1
  /\ (getDefaultCiphersuites ciphersuites st1).2 = st1
  /\ (getDefaultSigAlgs sigalgs st1).2 = st1.
Proof. split_statics st; repeat split. Qed.

(** X8. Whatever the statics hold when a configuration is constructed,
    every configuration the process constructs afterwards is equal to it
    in all its members, and nothing the process does afterwards
    (constructions, direct getter calls) changes the statics again. *)
Theorem later_constructions_equal_first
    (st : ProcessStatics) (steps : list ProcessStep) :
  let first := construct TLSv1_2 ciphers ciphersuites sigalgs st in
  let later :=
    fold_left (process_step TLSv1_2 ciphers ciphersuites sigalgs) steps
      ([], first.2) in
  Forall (fun c => c = first.1) later.1 /\ later.2 = first.2.
Proof.
  cbv zeta.
  pose proof (construct_again st) as Hagain.
  destruct (getters_after_construct st) as (G1 & G2 & G3).
  destruct (construct TLSv1_2 ciphers ciphersuites sigalgs st) as [c1 st1].
  cbn [fst snd] in *.
  assert (Hstart : Forall (fun c => c = c1) ([] : list Config))
    by constructor.
  revert Hstart. generalize ([] : list Config) as made.
  induction steps as [|p steps IH]; intros made Hmade; [now split|].
  cbn [fold_left].
  destruct p; cbn [process_step fst snd].
  - rewrite Hagain. apply IH.
    apply Forall_app. split; [exact Hmade|]. now repeat constructor.
  - rewrite G1. now apply IH.
  - rewrite G2. now apply IH.
  - rewrite G3. now apply IH.
Qed.

(** X9. A static getter returns, from its first call on, the string its
    first call returned, and leaves the statics as that call left them,
    even if the canonical list it would join has changed in between. *)
Theorem static_getters_first_value_stays
    (ciphers' ciphersuites' sigalgs' : list string) (st : ProcessStatics) :
  getDefaultCiphers ciphers' (getDefaultCiphers ciphers st).2
    = getDefaultCiphers ciphers st
  /\ getDefaultCiphersuites ciphersuites'
       (getDefaultCiphersuites ciphersuites st).2
     = getDefaultCiphersuites ciphersuites st
  /\ getDefaultSigAlgs sigalgs' (getDefaultSigAlgs sigalgs st).2
     = getDefaultSigAlgs sigalgs st.
Proof. split_statics st; repeat split. Qed.

End Properties.

(** ** Evaluations on the sample data *)

Example sample_defaults :
  default_strings Sample.config
  = ("ECDHE-ECDSA-AES128-GCM-SHA256:ECDHE-RSA-AES128-GCM-SHA256",
     "TLS_AES_128_GCM_SHA256:TLS_AES_256_GCM_SHA384",
     "ecdsa_secp256r1_sha256:rsa_pss_rsae_sha256").
Proof. reflexivity. Qed.

Example sample_process_initialises_once :
  let result :=
    run_process Sample.TLSv1_2 Sample.ciphers Sample.ciphersuites
      Sample.sigalgs [GetDefaultSigAlgs; Construct; Construct] in
  map default_strings result.1
    = [default_strings Sample.config; default_strings Sample.config]
  /\ initialisations (defaultCiphers result.2) = 1
  /\ initialisations (defaultSigAlgs result.2) = 1.
Proof. repeat split. Qed.

Example sample_credentials :
  delegatedCredentials
    (run [AddDelegatedCredential "a.pem"; SetDelegatedCredential "b.pem";
          AddDelegatedCredential "c.pem"] Sample.config)
  = [{| combinedCertPath := "b.pem" |}; {| combinedCertPath := "c.pem" |}].
Proof. reflexivity. Qed.

(** C2, counterexample. After [setNextProtocols] called with an empty list
    on a freshly constructed configuration the advertisement list is not
    empty: it holds the one entry the call installed. *)
Lemma setNextProtocols_nil_list_not_empty :
  nextProtocols <$> setNextProtocols (detached []) Sample.config <> Some [].
Proof. vm_compute. discriminate. Qed.

(** ** Instances of the conditional statements *)

Lemma buffer_entries_have_no_password_witness :
  CertificateInfo_buf "CERT" "KEY"
    ∈ certificates (run [SetCertificateBuf "CERT" "KEY"] Sample.config)
  /\ isBuffer (CertificateInfo_buf "CERT" "KEY") = true
  /\ passwordPath (CertificateInfo_buf "CERT" "KEY") = "".
Proof.
  assert (Hin : CertificateInfo_buf "CERT" "KEY"
                  ∈ certificates
                      (run [SetCertificateBuf "CERT" "KEY"] Sample.config))
    by (vm_compute; constructor).
  split; [exact Hin|]. split; [reflexivity|].
  exact (proj1 (buffer_entries_have_no_password Sample.TLSv1_2 Sample.ciphers
                  Sample.ciphersuites Sample.sigalgs)
           process_start [SetCertificateBuf "CERT" "KEY"]
           (CertificateInfo_buf "CERT" "KEY") Hin eq_refl).
Defined.

Lemma no_ambiguous_entry_through_builder_witness :
  setCertificateBuf (detached "CERT") (detached "KEY") Sample.config
    = Some (call (SetCertificateBuf "CERT" "KEY") Sample.config)
  /\ Forall (fun e => ambiguous e = false)
       (certificates (call (SetCertificateBuf "CERT" "KEY") Sample.config)).
Proof.
  split; [reflexivity|].
  exact (proj2 (proj2 (proj2 (proj2 (proj2 (proj2
           (no_ambiguous_entry_through_builder Sample.TLSv1_2 Sample.ciphers
              Sample.ciphersuites Sample.sigalgs))))))
           (detached "CERT") (detached "KEY") Sample.config
           (call (SetCertificateBuf "CERT" "KEY") Sample.config) eq_refl).
Defined.

Lemma call_changes_only_written_member_witness :
  m_domains <> written (SetCertificate "a.crt" "a.key" "a.pw")
  /\ same_member m_domains Sample.config
       (call (SetCertificate "a.crt" "a.key" "a.pw") Sample.config).
Proof.
  assert (Hm : m_domains <> written (SetCertificate "a.crt" "a.key" "a.pw"))
    by (simpl; discriminate).
  split; [exact Hm|].
  exact (call_changes_only_written_member
           (SetCertificate "a.crt" "a.key" "a.pw") Sample.config
           m_domains Hm).
Defined.

(** ** Instances of the conditional composition statements *)

Example calls_for_sample :
  calls_for [CertificateInfo_buf "CERT" "KEY";
             CertificateInfo_path "a.crt" "a.key" ""]
  = [SetCertificateBuf "CERT" "KEY"; AddCertificate "a.crt" "a.key" ""].
Proof. reflexivity. Qed.

Example last_next_protocols_sample :
  last_next_protocols
    [SetNextProtocols ["h2"]; AddCertificate "a.crt" "a.key" "";
     SetNextProtocols ["http/1.1"]; AddDelegatedCredential "dc.pem"]
  = Some ["http/1.1"].
Proof. reflexivity. Qed.

Lemma set_call_absorbs_history_witness :
  call (SetCertificateBuf "CERT" "KEY")
    (run [AddCertificate "a.crt" "a.key" "a.pw";
          SetCertificate "b.crt" "b.key" ""] Sample.config)
  = call (SetCertificateBuf "CERT" "KEY") Sample.config.
Proof.
  apply (set_call_absorbs_history (SetCertificateBuf "CERT" "KEY")
           [AddCertificate "a.crt" "a.key" "a.pw";
            SetCertificate "b.crt" "b.key" ""] Sample.config).
  - reflexivity.
  - repeat constructor.
Defined.

Lemma calls_on_different_lists_commute_witness :
  call (SetNextProtocols ["h2"])
    (call (AddCertificate "a.crt" "a.key" "") Sample.config)
  = call (AddCertificate "a.crt" "a.key" "")
      (call (SetNextProtocols ["h2"]) Sample.config).
Proof.
  apply (calls_on_different_lists_commute
           (AddCertificate "a.crt" "a.key" "") (SetNextProtocols ["h2"])
           Sample.config).
  simpl. discriminate.
Defined.

Lemma certificate_adds_keep_call_order_witness :
  certificates
    (call (AddCertificateBuf "CERT" "KEY")
       (call (AddCertificate "a.crt" "a.key" "") Sample.config))
  = [CertificateInfo_path "a.crt" "a.key" ""; CertificateInfo_buf "CERT" "KEY"]
  /\ certificates
       (call (AddCertificateBuf "CERT" "KEY")
          (call (AddCertificate "a.crt" "a.key" "") Sample.config))
     <> certificates
          (call (AddCertificate "a.crt" "a.key" "")
             (call (AddCertificateBuf "CERT" "KEY") Sample.config)).
Proof.
  destruct (certificate_adds_keep_call_order
              (AddCertificate "a.crt" "a.key" "")
              (AddCertificateBuf "CERT" "KEY")
              (CertificateInfo_path "a.crt" "a.key" "")
              (CertificateInfo_buf "CERT" "KEY")
              Sample.config eq_refl eq_refl eq_refl eq_refl) as [Horder Hswap].
  split; [exact Horder|]. apply Hswap. discriminate.
Defined.

Lemma add_only_sequence_extends_witness :
  length
    (certificates
       (run [AddCertificate "b.crt" "b.key" ""; SetNextProtocols ["h2"];
             AddCertificate "b.crt" "b.key" ""]
          (call (SetCertificate "a.crt" "a.key" "a.pw") Sample.config)))
  = 1 + 2.
Proof.
  apply (add_only_sequence_extends
           [AddCertificate "b.crt" "b.key" ""; SetNextProtocols ["h2"];
            AddCertificate "b.crt" "b.key" ""]
           (call (SetCertificate "a.crt" "a.key" "a.pw") Sample.config)).
  repeat constructor.
Defined.

Lemma calls_for_round_trip_witness :
  certificates
    (run (calls_for [CertificateInfo_buf "CERT" "KEY";
                     CertificateInfo_path "a.crt" "a.key" "a.pw"])
       (addCertificate "old.crt" "old.key" "" Sample.config))
  = [CertificateInfo_buf "CERT" "KEY";
     CertificateInfo_path "a.crt" "a.key" "a.pw"].
Proof.
  apply (calls_for_round_trip
           [CertificateInfo_buf "CERT" "KEY";
            CertificateInfo_path "a.crt" "a.key" "a.pw"]
           (addCertificate "old.crt" "old.key" "" Sample.config)).
  - discriminate.
  - repeat constructor.
Defined.

Lemma run_changes_only_written_members_witness :
  same_member m_nextProtocols Sample.config
    (run [SetCertificate "a.crt" "a.key" "";
          AddDelegatedCredential "dc.pem"] Sample.config).
Proof.
  apply (run_changes_only_written_members m_nextProtocols
           [SetCertificate "a.crt" "a.key" "";
            AddDelegatedCredential "dc.pem"] Sample.config).
  repeat constructor; simpl; discriminate.
Defined.
